(** * spacevibe-frontend: session store, route guard and dashboard list

    A shallow embedding of
    - [context/AuthContext.tsx]  ([AuthProvider], [useAuth]),
    - [ProtectedRoute.tsx]       ([ProtectedRoute]),
    - [pages/DashboardPage.tsx]  ([houseSchema], [fetchHouses] and the
                                  create, update and delete handlers),
    - [pages/Login.tsx], [pages/Register.tsx]  (their [onSubmit]),
    - [pages/HouseDetailsPage.tsx]             ([fetchHouseDetails]),
    followed by the properties the specification states about them and by
    further properties read off the code.

    Modelling choices.
    - [localStorage] is a finite map from string keys to string values;
      [getItem] answers [None] for JavaScript's [null].  [setItem] throws
      when the browser refuses the write (quota exceeded, storage switched
      off); what the browser accepts is part of the world.
    - The two [useState] cells of [AuthProvider] and the storage form one
      [World]; a [set...] call of React is the update of its cell.  Event
      handlers run to completion on the single UI thread, so every operation
      is one transition of the world.
    - Code that may touch the world or throw lives in the monad [M]. *)

From stdpp Require Import gmap strings list fin_maps.
From Stdlib Require Import ZArith.

Open Scope string_scope.

(** ** Browser storage *)

Abbreviation Storage := (gmap string string).

Definition getItem (key : string) (ls : Storage) : option string := ls !! key.
Definition setItem (key value : string) (ls : Storage) : Storage := <[key:=value]> ls.
Definition removeItem (key : string) (ls : Storage) : Storage := delete key ls.

(** JavaScript truthiness of a [string | null]: [null] and the empty string
    are falsy, every other string is truthy. *)
Definition truthy (v : option string) : bool :=
  match v with
  | None => false
  | Some s => negb (String.eqb s "")
  end.

(** ** The world: state of [AuthProvider] plus [localStorage] *)

(** What the browser lets [setItem] store: [q key value ls] tells whether
    [setItem(key, value)] is accepted when storage holds [ls].  A refused
    write throws a [QuotaExceededError] and stores nothing. *)
Definition Quota : Type := string -> string -> Storage -> bool.

(** A browser that accepts every write. *)
Definition unlimited : Quota := fun _ _ _ => true.

Record World := mkWorld {
  isAuthenticated : bool;      (* useState<boolean>(false) *)
  loading : bool;              (* useState<boolean>(true)  *)
  localStorage : Storage;
  quota : Quota;
}.

(** The world in which [AuthProvider] is mounted in a given browser over a
    given storage: both cells hold their [useState] defaults and the effect
    has not run yet. *)
Definition mount (q : Quota) (ls : Storage) : World :=
  {| isAuthenticated := false; loading := true; localStorage := ls; quota := q |}.

(** ** A state and exception monad *)

Inductive outcome (A : Type) : Type :=
| Returned (a : A)
| Thrown (message : string).
Arguments Returned {A} a.
Arguments Thrown {A} message.

Definition M (A : Type) : Type := World -> outcome A * World.

#[global] Instance M_ret : MRet M := fun A a w => (Returned a, w).
#[global] Instance M_bind : MBind M := fun A B k m w =>
  match m w with
  | (Returned a, w') => k a w'
  | (Thrown e, w') => (Thrown e, w')
  end.
Definition throw {A} (message : string) : M A := fun w => (Thrown message, w).

Definition result {A} (m : M A) (w : World) : outcome A := fst (m w).
Definition exec {A} (m : M A) (w : World) : World := snd (m w).

(** Primitive effects. *)
Definition localStorage_getItem (key : string) : M (option string) :=
  fun w => (Returned (getItem key (localStorage w)), w).
Definition localStorage_setItem (key value : string) : M unit :=
  fun w =>
    if quota w key value (localStorage w) then
      (Returned tt,
       {| isAuthenticated := isAuthenticated w; loading := loading w;
          localStorage := setItem key value (localStorage w);
          quota := quota w |})
    else (Thrown "QuotaExceededError", w).
Definition localStorage_removeItem (key : string) : M unit :=
  fun w => (Returned tt,
            {| isAuthenticated := isAuthenticated w; loading := loading w;
               localStorage := removeItem key (localStorage w);
               quota := quota w |}).
Definition setIsAuthenticated (b : bool) : M unit :=
  fun w => (Returned tt,
            {| isAuthenticated := b; loading := loading w;
               localStorage := localStorage w; quota := quota w |}).
Definition setLoading (b : bool) : M unit :=
  fun w => (Returned tt,
            {| isAuthenticated := isAuthenticated w; loading := b;
               localStorage := localStorage w; quota := quota w |}).

(** ** [AuthProvider] *)

Record Tokens := mkTokens { access : string; refresh : string }.

(** The body of the mount effect, [useEffect(() => { ... }, [])]. *)
Definition initialize : M unit :=
  token ← localStorage_getItem "accessToken";
  (if truthy token then setIsAuthenticated true else mret tt);;
  setLoading false.

Definition login (tokens : Tokens) : M unit :=
  localStorage_setItem "accessToken" (access tokens);;
  localStorage_setItem "refreshToken" (refresh tokens);;
  setIsAuthenticated true.

Definition logout : M unit :=
  localStorage_removeItem "accessToken";;
  localStorage_removeItem "refreshToken";;
  setIsAuthenticated false.

Definition getAccessToken : M (option string) :=
  localStorage_getItem "accessToken".

(** The value handed to [AuthContext.Provider]. *)
Module Ctx.
Record AuthContextType := mk {
  isAuthenticated : bool;
  login : Tokens -> M unit;
  logout : M unit;
  getAccessToken : M (option string);
  loading : bool;
}.
End Ctx.

Definition AuthProvider (w : World) : Ctx.AuthContextType :=
  {| Ctx.isAuthenticated := isAuthenticated w;
     Ctx.login := login;
     Ctx.logout := logout;
     Ctx.getAccessToken := getAccessToken;
     Ctx.loading := loading w |}.

(** [useContext(AuthContext)] is [None] outside every provider (the default
    given to [createContext]) and the provider's value inside one. *)
Definition useAuth (context : option Ctx.AuthContextType) : M Ctx.AuthContextType :=
  match context with
  | None => throw "useAuth must be used within an AuthProvider"
  | Some c => mret c
  end.

(** ** [ProtectedRoute] *)

Inductive Element (ReactNode : Type) : Type :=
| Div (text : string)                       (* <div>Loading...</div> *)
| Navigate (to : string) (replace : bool)   (* <Navigate to=... replace /> *)
| Fragment (children : ReactNode).          (* <>{children}</> *)
Arguments Div {ReactNode} text.
Arguments Navigate {ReactNode} to replace.
Arguments Fragment {ReactNode} children.

Definition ProtectedRoute {ReactNode : Type}
    (context : option Ctx.AuthContextType) (children : ReactNode)
  : M (Element ReactNode) :=
  c ← useAuth context;
  if Ctx.loading c then mret (Div "Loading...")
  else if negb (Ctx.isAuthenticated c) then mret (Navigate "/login" true)
  else mret (Fragment children).

(** ** Sequences of [login] / [logout] calls *)

Inductive Call := Login (tokens : Tokens) | Logout.

Definition run_call (c : Call) : M unit :=
  match c with
  | Login tokens => login tokens
  | Logout => logout
  end.

(** The calls are events of their own: one that throws hands its exception
    to its caller and the next one still runs, on the world left behind. *)
Definition run_calls (cs : list Call) (w : World) : World :=
  foldl (fun w c => exec (run_call c) w) w cs.

(** Whether a computation returns rather than throws. *)
Definition returns {A} (m : M A) (w : World) : bool :=
  match result m w with
  | Returned _ => true
  | Thrown _ => false
  end.

(** Whether every call of a sequence returns, each run on the world the
    calls before it left. *)
Fixpoint all_return (cs : list Call) (w : World) : bool :=
  match cs with
  | [] => true
  | c :: cs' => returns (run_call c) w && all_return cs' (exec (run_call c) w)
  end.

Definition is_login (c : Call) : bool :=
  match c with Login _ => true | Logout => false end.

(** What storage has to hold right after a call for it to mirror the
    in-memory flag: the pair just logged in with, or neither entry. *)
Definition storage_after (c : Call) (ls : Storage) : Prop :=
  match c with
  | Login tokens =>
      ls !! "accessToken" = Some (access tokens) /\
      ls !! "refreshToken" = Some (refresh tokens)
  | Logout =>
      ls !! "accessToken" = None /\ ls !! "refreshToken" = None
  end.

(** ** [DashboardPage]: the local list of houses *)

Module DashboardPage.

Record HouseForm := mkHouse {
  name : string;
  width : Z;
  length : Z;
  height : Z;
  floors : Z;
  id : Z;
}.

(** The [useState] cells of the page. *)
Record State := mkState {
  houses : list HouseForm;
  isCreating : bool;
  editingHouse : option HouseForm;
  newHouse : HouseForm;
  successMessage : option string;
  errorMessage : option string;
  loading : bool;
}.

(** How the awaited [api.delete] promise settles. *)
Inductive Settled := Resolved | Rejected.

(** [house.id !== id] *)
Definition strict_ne (a b : Z) : bool := negb (a =? b)%Z.

Definition setHouses (hs : list HouseForm) (s : State) : State :=
  {| houses := hs; isCreating := isCreating s; editingHouse := editingHouse s;
     newHouse := newHouse s; successMessage := successMessage s;
     errorMessage := errorMessage s; loading := loading s |}.
Definition setSuccessMessage (m : option string) (s : State) : State :=
  {| houses := houses s; isCreating := isCreating s; editingHouse := editingHouse s;
     newHouse := newHouse s; successMessage := m;
     errorMessage := errorMessage s; loading := loading s |}.
Definition setErrorMessage (m : option string) (s : State) : State :=
  {| houses := houses s; isCreating := isCreating s; editingHouse := editingHouse s;
     newHouse := newHouse s; successMessage := successMessage s;
     errorMessage := m; loading := loading s |}.

(** One run of the handler.  [rendered] holds the cells as they were in the
    render that created the handler: the [houses] the closure refers to is
    [houses rendered].  [confirmed] is the answer of [window.confirm] and
    [response] the way the awaited DELETE request settles; [s] holds the
    cells at the moment the setters run.  When no other update happens
    between the click and the settlement, [rendered] and [s] are the same.
    The [setTimeout] callbacks that clear the messages two seconds later are
    events of their own. *)
Definition handleDeleteHouse (rendered : State) (id0 : Z) (confirmed : bool)
    (response : Settled) (s : State) : State :=
  if negb confirmed then s
  else
    match response with
    | Resolved =>
        setSuccessMessage (Some "House deleted successfully!")
          (setHouses
             (List.filter (fun house => strict_ne (id house) id0)
                          (houses rendered)) s)
    | Rejected =>
        setErrorMessage (Some "Error deleting house. Please try again.") s
    end.

(** *** The other handlers of the page *)

Definition setIsCreating (b : bool) (s : State) : State :=
  {| houses := houses s; isCreating := b; editingHouse := editingHouse s;
     newHouse := newHouse s; successMessage := successMessage s;
     errorMessage := errorMessage s; loading := loading s |}.
Definition setEditingHouse (e : option HouseForm) (s : State) : State :=
  {| houses := houses s; isCreating := isCreating s; editingHouse := e;
     newHouse := newHouse s; successMessage := successMessage s;
     errorMessage := errorMessage s; loading := loading s |}.
Definition setNewHouse (h : HouseForm) (s : State) : State :=
  {| houses := houses s; isCreating := isCreating s; editingHouse := editingHouse s;
     newHouse := h; successMessage := successMessage s;
     errorMessage := errorMessage s; loading := loading s |}.
Definition setLoading (b : bool) (s : State) : State :=
  {| houses := houses s; isCreating := isCreating s; editingHouse := editingHouse s;
     newHouse := newHouse s; successMessage := successMessage s;
     errorMessage := errorMessage s; loading := b |}.

(** The form a fresh page starts with and a successful creation resets to:
    [{name: '', width: 0, length: 0, height: 0, floors: 1, id: 0}]. *)
Definition blankHouse : HouseForm :=
  {| name := ""; width := 0; length := 0; height := 0; floors := 1; id := 0 |}.

(** [houseSchema.parse] succeeds ([true]) or throws a [ZodError] ([false]):
    the name has at least one character and every number is at least 1. *)
Definition houseSchema (h : HouseForm) : bool :=
  (1 <=? String.length (name h))%nat &&
  (1 <=? width h)%Z && (1 <=? length h)%Z &&
  (1 <=? height h)%Z && (1 <=? floors h)%Z.

(** The requests the page sends through [api]. *)
Inductive Request :=
| GET_houses                               (* api.get('/houses/') *)
| POST_houses (body : HouseForm)           (* api.post('/houses/', body) *)
| PUT_house (id0 : Z) (body : HouseForm)   (* api.put(`/houses/${id0}/`, body) *)
| DELETE_house (id0 : Z).                  (* api.delete(`/houses/${id0}/`) *)

(** How the awaited [api.get<HouseForm[]>] settles. *)
Inductive Fetched := Data (data : list HouseForm) | Failed.

(** The settlement of [fetchHouses]: the list is replaced by the response,
    or left alone when the request fails (the error is only logged). *)
Definition fetchHouses (response : Fetched) (s : State) : State :=
  match response with
  | Data data => setHouses data s
  | Failed => s
  end.

(** [handleCreateHouse]: the requests it sends, in order, and the cells after
    it.  The form it validates and posts is the [newHouse] of the render
    that created the handler.  On success it starts [fetchHouses] without
    awaiting it, so the GET is sent and settles as an event of its own. *)
Definition handleCreateHouse (rendered : State) (response : Settled) (s : State)
  : list Request * State :=
  if houseSchema (newHouse rendered) then
    match response with
    | Resolved =>
        ([POST_houses (newHouse rendered); GET_houses],
         setLoading false
           (setNewHouse blankHouse
              (setSuccessMessage (Some "House created successfully!")
                 (setIsCreating false (setLoading true s)))))
    | Rejected =>
        ([POST_houses (newHouse rendered)],
         setLoading false
           (setErrorMessage (Some "Error creating house. Please try again.")
              (setLoading true s)))
    end
  else
    ([],
     setLoading false
       (setErrorMessage
          (Some "Validation failed: Please check your input fields.") s)).

(** [handleUpdateHouse]: the requests it sends and the cells after it.
    [editingHouse] and [houses] are those of the render that created the
    handler. *)
Definition handleUpdateHouse (rendered : State) (response : Settled) (s : State)
  : list Request * State :=
  match editingHouse rendered with
  | None => ([], s)
  | Some editing =>
      if houseSchema editing then
        match response with
        | Resolved =>
            ([PUT_house (id editing) editing],
             setEditingHouse None
               (setSuccessMessage (Some "House updated successfully!")
                  (setHouses
                     (map (fun house =>
                             if (id house =? id editing)%Z then editing else house)
                          (houses rendered)) s)))
        | Rejected =>
            ([PUT_house (id editing) editing],
             setErrorMessage (Some "Error updating house. Please try again.") s)
        end
      else
        ([],
         setErrorMessage
           (Some "Validation failed: Please check your input fields.") s)
  end.

(** One keystroke in a form field: [{...form, field: value}].  The numeric
    fields receive [Number(e.target.value)], taken here as the number it
    yields. *)
Inductive Change :=
| ChangeName (value : string)
| ChangeWidth (value : Z)
| ChangeLength (value : Z)
| ChangeHeight (value : Z)
| ChangeFloors (value : Z).

Definition spread (form : HouseForm) (c : Change) : HouseForm :=
  match c with
  | ChangeName v =>
      {| name := v; width := width form; length := length form;
         height := height form; floors := floors form; id := id form |}
  | ChangeWidth v =>
      {| name := name form; width := v; length := length form;
         height := height form; floors := floors form; id := id form |}
  | ChangeLength v =>
      {| name := name form; width := width form; length := v;
         height := height form; floors := floors form; id := id form |}
  | ChangeHeight v =>
      {| name := name form; width := width form; length := length form;
         height := v; floors := floors form; id := id form |}
  | ChangeFloors v =>
      {| name := name form; width := width form; length := length form;
         height := height form; floors := v; id := id form |}
  end.

(** [onChange] of an input of the row being edited.  The inputs are only
    rendered while [editingHouse] is set; without it there is no input to
    type in and nothing happens. *)
Definition onChangeEditing (rendered : State) (c : Change) (s : State) : State :=
  match editingHouse rendered with
  | Some editing => setEditingHouse (Some (spread editing c)) s
  | None => s
  end.

(** The Edit button of a row and a run of keystrokes after it, each handled
    by the render that follows the previous one. *)
Definition edit (house : HouseForm) (cs : list Change) (s : State) : State :=
  foldl (fun s c => onChangeEditing s c s) (setEditingHouse (Some house) s) cs.

End DashboardPage.

(** ** The login page *)

Module LoginPage.

(** The [useState] cells of the page. *)
Record State := mkState {
  isSubmitting : bool;
  submitError : option string;
  submitSuccess : bool;
}.

(** How the awaited [api.post('/auth/login/', data)] settles: with a status
    and a body, or with an error whose [response?.data?.detail] may be
    missing. *)
Inductive Response :=
| Resolved (status : Z) (data : Tokens)
| Rejected (detail : option string).

(** [detail || fallback] *)
Definition or_else (detail : option string) (fallback : string) : string :=
  match detail with
  | Some d => if truthy detail then d else fallback
  | None => fallback
  end.

(** [onSubmit]: the cells after it and the path handed to [navigate], if
    any.  [login] is the one of the context; an error it throws lands in
    the same [catch] as a failed request and carries no [response]. *)
Definition onSubmit (c : Ctx.AuthContextType) (response : Response) (s : State)
  : World -> (State * option string) * World :=
  fun w =>
    match response with
    | Resolved status data =>
        if (status =? 200)%Z then
          match Ctx.login c data w with
          | (Returned _, w') =>
              (({| isSubmitting := false; submitError := None;
                   submitSuccess := true |}, Some "/dashboard"), w')
          | (Thrown _, w') =>
              (({| isSubmitting := false;
                   submitError := Some (or_else None "An error occurred");
                   submitSuccess := false |}, None), w')
          end
        else
          (({| isSubmitting := false; submitError := None;
               submitSuccess := false |}, None), w)
    | Rejected detail =>
        (({| isSubmitting := false;
             submitError := Some (or_else detail "An error occurred");
             submitSuccess := false |}, None), w)
    end.

End LoginPage.

(** ** The registration page *)

Module Register.

Record State := mkState {
  submitError : option string;
  submitSuccess : option string;
}.

Inductive Response :=
| Resolved (status : Z)
| Rejected (detail : option string).

(** What a [setTimeout(..., 2000)] of the handler will do when it fires. *)
Inductive Timer := NavigateTo (path : string) | ClearSubmitError.

Definition onSubmit (response : Response) (s : State) : State * option Timer :=
  match response with
  | Resolved status =>
      if (status =? 201)%Z then
        ({| submitError := submitError s;
            submitSuccess :=
              Some "Account created successfully. Please log in to continue." |},
         Some (NavigateTo "/login"))
      else (s, None)
  | Rejected detail =>
      ({| submitError := Some (LoginPage.or_else detail "Registration failed");
          submitSuccess := submitSuccess s |},
       Some ClearSubmitError)
  end.

(** The callback of a timer, run when it fires. *)
Definition fire (t : Timer) (s : State) : State :=
  match t with
  | NavigateTo _ => s
  | ClearSubmitError => {| submitError := None; submitSuccess := submitSuccess s |}
  end.

End Register.

(** ** The house details page *)

Module HouseDetailsPage.

Record HouseDetails := mkDetails {
  id : Z;
  name : string;
  width : Z;
  length : Z;
  floors : Z;
}.

Record State := mkState {
  house : option HouseDetails;
  loading : bool;
  error : option string;
}.

Inductive Response := Resolved (data : HouseDetails) | Rejected.

(** [fetchHouseDetails] runs in two steps.  Up to its [await] it switches
    the spinner on. *)
Definition fetchHouseDetails_started (s : State) : State :=
  {| house := house s; loading := true; error := error s |}.

(** From the settlement of the request to the end of [finally]. *)
Definition fetchHouseDetails_settled (response : Response) (s : State) : State :=
  match response with
  | Resolved data =>
      {| house := Some data; loading := false; error := error s |}
  | Rejected =>
      {| house := house s; loading := false;
         error := Some "Failed to load house details. Please try again." |}
  end.

(** What happens on the page, in order: a fetch starts (the route's [id]
    changed), or a fetch started earlier settles. *)
Inductive Event := Started | Settled (response : Response).

Definition step (s : State) (e : Event) : State :=
  match e with
  | Started => fetchHouseDetails_started s
  | Settled response => fetchHouseDetails_settled response s
  end.

Definition run (events : list Event) (s : State) : State := foldl step s events.

Definition data_of (e : Event) : option HouseDetails :=
  match e with Settled (Resolved data) => Some data | _ => None end.

Definition is_rejected (e : Event) : bool :=
  match e with Settled Rejected => true | _ => false end.

End HouseDetailsPage.

(** * Properties *)

(** ** Equations of the session operations *)

Lemma initialize_eq (w : World) :
  initialize w =
  (Returned tt,
   {| isAuthenticated :=
        if truthy (localStorage w !! "accessToken") then true else isAuthenticated w;
      loading := false;
      localStorage := localStorage w;
      quota := quota w |}).
Proof.
  unfold initialize, mbind, M_bind, localStorage_getItem, getItem. simpl.
  destruct (truthy _); reflexivity.
Qed.

(** [login] has three ways to end: the first write is refused and nothing
    has changed; the second write is refused and the access token is stored
    with the flag untouched; or both writes are accepted. *)
Lemma login_eq (tokens : Tokens) (w : World) :
  login tokens w =
  if quota w "accessToken" (access tokens) (localStorage w) then
    if quota w "refreshToken" (refresh tokens)
         (<["accessToken" := access tokens]> (localStorage w))
    then
      (Returned tt,
       {| isAuthenticated := true;
          loading := loading w;
          localStorage :=
            <["refreshToken" := refresh tokens]>
              (<["accessToken" := access tokens]> (localStorage w));
          quota := quota w |})
    else
      (Thrown "QuotaExceededError",
       {| isAuthenticated := isAuthenticated w;
          loading := loading w;
          localStorage := <["accessToken" := access tokens]> (localStorage w);
          quota := quota w |})
  else (Thrown "QuotaExceededError", w).
Proof.
  unfold login, mbind, M_bind, localStorage_setItem, setItem. simpl.
  destruct (quota w "accessToken" _ _); [|reflexivity]. simpl.
  destruct (quota w "refreshToken" _ _); reflexivity.
Qed.

Lemma logout_eq (w : World) :
  logout w =
  (Returned tt,
   {| isAuthenticated := false;
      loading := loading w;
      localStorage := delete "refreshToken" (delete "accessToken" (localStorage w));
      quota := quota w |}).
Proof. reflexivity. Qed.

Lemma truthy_true (v : option string) :
  truthy v = true <-> exists s, v = Some s /\ s <> "".
Proof.
  destruct v as [s|]; simpl.
  - rewrite negb_true_iff, String.eqb_neq. split.
    + intros Hs. exists s. auto.
    + intros (s' & [= <-] & Hs). exact Hs.
  - split; [discriminate | intros (s & [=] & _)].
Qed.

Lemma token_keys_differ : "accessToken" <> "refreshToken".
Proof. discriminate. Qed.


(** ** The route guard *)

Section RouteGuard.
Context {ReactNode : Type}.
Implicit Types (c : Ctx.AuthContextType) (children : ReactNode) (w : World).

(** The guard under a provider, as one equation. *)
Lemma ProtectedRoute_eq c children w :
  ProtectedRoute (Some c) children w =
  (Returned
     (if Ctx.loading c then Div "Loading..."
      else if negb (Ctx.isAuthenticated c) then Navigate "/login" true
      else Fragment children),
   w).
Proof.
  unfold ProtectedRoute, mbind, M_bind, useAuth, mret, M_ret.
  destruct (Ctx.loading c), (Ctx.isAuthenticated c); reflexivity.
Qed.

Lemma ProtectedRoute_no_context children w :
  ProtectedRoute None children w =
  (Thrown "useAuth must be used within an AuthProvider", w).
Proof. reflexivity. Qed.

(** C1.  Inside a provider the guard's output is a function of the pair
    [(loading, isAuthenticated)] and of the protected view alone: the
    placeholder (and no redirect) when [loading]; otherwise a redirect to
    the login entry point when not authenticated; otherwise the view
    itself, unchanged.  Contexts that agree on the pair give the same
    output in every world. *)
Theorem ProtectedRoute_decision c children w :
  result (ProtectedRoute (Some c) children) w =
    Returned
      match Ctx.loading c, Ctx.isAuthenticated c with
      | true, _ => Div "Loading..."
      | false, false => Navigate "/login" true
      | false, true => Fragment children
      end
  /\ forall c' w',
       (Ctx.loading c', Ctx.isAuthenticated c') =
       (Ctx.loading c, Ctx.isAuthenticated c) ->
       result (ProtectedRoute (Some c') children) w' =
       result (ProtectedRoute (Some c) children) w.
Proof.
  unfold result. split.
  - rewrite ProtectedRoute_eq. simpl.
    destruct (Ctx.loading c), (Ctx.isAuthenticated c); reflexivity.
  - intros c' w' [= Hl Ha]. rewrite !ProtectedRoute_eq. simpl.
    rewrite Hl, Ha. reflexivity.
Qed.

(** C7.  Whenever the guard answers with a redirect, the request was
    resolved and unauthenticated, the target is the login entry point and
    the [replace] flag is set, so the router overwrites the current
    history entry instead of pushing a new one. *)
Theorem ProtectedRoute_redirect_replaces c children w to replace :
  result (ProtectedRoute (Some c) children) w = Returned (Navigate to replace) ->
  replace = true /\ to = "/login" /\
  Ctx.loading c = false /\ Ctx.isAuthenticated c = false.
Proof.
  unfold result. rewrite ProtectedRoute_eq. simpl.
  destruct (Ctx.loading c), (Ctx.isAuthenticated c); intros H;
    inversion H; subst; auto.
Qed.

(** C8.  Evaluating the guard leaves the session state and the storage
    untouched, with or without a provider and whatever the state is. *)
Theorem ProtectedRoute_frame (context : option Ctx.AuthContextType) children w :
  exec (ProtectedRoute context children) w = w.
Proof.
  unfold exec. destruct context as [c|].
  - rewrite ProtectedRoute_eq. reflexivity.
  - rewrite ProtectedRoute_no_context. reflexivity.
Qed.

End RouteGuard.

Lemma ProtectedRoute_decision_witness :
  let c := AuthProvider (mount unlimited {["accessToken" := "abc"]}) in
  let c' := AuthProvider (exec logout (mount unlimited ∅)) in
  result (ProtectedRoute (Some c') "Dashboard Page") (mount unlimited ∅) =
  result (ProtectedRoute (Some c) "Dashboard Page") (mount unlimited ∅).
Proof.
  intros c c'.
  apply (proj2 (ProtectedRoute_decision c "Dashboard Page" (mount unlimited ∅))).
  reflexivity.
Defined.

Lemma ProtectedRoute_redirect_replaces_witness :
  let c := AuthProvider (exec initialize (mount unlimited ∅)) in
  true = true /\ "/login" = "/login" /\
  Ctx.loading c = false /\ Ctx.isAuthenticated c = false.
Proof.
  intros c.
  apply (ProtectedRoute_redirect_replaces (ReactNode := string)
           c "Dashboard Page" (exec initialize (mount unlimited ∅)) "/login" true).
  reflexivity.
Defined.

(** ** [useAuth] *)

(** C9.  Outside a provider [useAuth] throws and returns nothing; inside a
      provider it returns the provider's value and does not throw. *)
Theorem useAuth_requires_provider (w : World) :
  useAuth None w = (Thrown "useAuth must be used within an AuthProvider", w) /\
  forall c : Ctx.AuthContextType, useAuth (Some c) w = (Returned c, w).
Proof. split; [reflexivity | intros c; reflexivity]. Qed.

(** ** The session store *)

Lemma exec_initialize (w : World) :
  exec initialize w =
  {| isAuthenticated :=
       if truthy (localStorage w !! "accessToken") then true else isAuthenticated w;
     loading := false;
     localStorage := localStorage w;
     quota := quota w |}.
Proof. unfold exec. rewrite initialize_eq. reflexivity. Qed.

(** [login] returns exactly when the browser accepts both writes. *)
Lemma login_returns (tokens : Tokens) (w : World) :
  returns (login tokens) w =
  quota w "accessToken" (access tokens) (localStorage w) &&
  quota w "refreshToken" (refresh tokens)
    (<["accessToken" := access tokens]> (localStorage w)).
Proof.
  unfold returns, result. rewrite login_eq.
  destruct (quota w "accessToken" _ _); [|reflexivity]. simpl.
  destruct (quota w "refreshToken" _ _); reflexivity.
Qed.

Lemma exec_login (tokens : Tokens) (w : World) :
  returns (login tokens) w = true ->
  exec (login tokens) w =
  {| isAuthenticated := true;
     loading := loading w;
     localStorage :=
       <["refreshToken" := refresh tokens]>
         (<["accessToken" := access tokens]> (localStorage w));
     quota := quota w |}.
Proof.
  rewrite login_returns. intros [Ha Hr]%andb_true_iff.
  unfold exec. rewrite login_eq, Ha, Hr. reflexivity.
Qed.

(** A [login] that throws leaves the flag, [loading] and every entry but the
    access token as they were. *)
Lemma login_thrown (tokens : Tokens) (w : World) :
  returns (login tokens) w = false ->
  isAuthenticated (exec (login tokens) w) = isAuthenticated w /\
  loading (exec (login tokens) w) = loading w /\
  forall key, key <> "accessToken" ->
    localStorage (exec (login tokens) w) !! key = localStorage w !! key.
Proof.
  rewrite login_returns. intros Hq. unfold exec. rewrite login_eq.
  destruct (quota w "accessToken" _ _); simpl in *.
  - rewrite Hq. simpl. repeat split.
    intros key Hkey. rewrite lookup_insert_ne by congruence. reflexivity.
  - repeat split.
Qed.

Lemma logout_returns (w : World) : returns logout w = true.
Proof. reflexivity. Qed.

Lemma exec_logout (w : World) :
  exec logout w =
  {| isAuthenticated := false;
     loading := loading w;
     localStorage := delete "refreshToken" (delete "accessToken" (localStorage w));
     quota := quota w |}.
Proof. reflexivity. Qed.

Lemma login_storage (tokens : Tokens) (w : World) :
  returns (login tokens) w = true ->
  localStorage (exec (login tokens) w) !! "accessToken" = Some (access tokens) /\
  localStorage (exec (login tokens) w) !! "refreshToken" = Some (refresh tokens).
Proof.
  intros Hret. rewrite (exec_login _ _ Hret). simpl. split.
  - rewrite lookup_insert_ne by (symmetry; apply token_keys_differ).
    apply lookup_insert_eq.
  - apply lookup_insert_eq.
Qed.

Lemma logout_storage (w : World) :
  localStorage (exec logout w) !! "accessToken" = None /\
  localStorage (exec logout w) !! "refreshToken" = None.
Proof.
  rewrite exec_logout. simpl. split.
  - rewrite lookup_delete_ne by (symmetry; apply token_keys_differ).
    apply lookup_delete_eq.
  - apply lookup_delete_eq.
Qed.

Lemma login_loading (tokens : Tokens) (w : World) :
  loading (exec (login tokens) w) = loading w.
Proof.
  unfold exec. rewrite login_eq.
  destruct (quota w "accessToken" _ _); [|reflexivity].
  destruct (quota w "refreshToken" _ _); reflexivity.
Qed.

Lemma login_quota (tokens : Tokens) (w : World) :
  quota (exec (login tokens) w) = quota w.
Proof.
  unfold exec. rewrite login_eq.
  destruct (quota w "accessToken" _ _); [|reflexivity].
  destruct (quota w "refreshToken" _ _); reflexivity.
Qed.

Lemma run_call_loading (c : Call) (w : World) :
  loading (exec (run_call c) w) = loading w.
Proof. destruct c; [apply login_loading | reflexivity]. Qed.

Lemma run_call_quota (c : Call) (w : World) :
  quota (exec (run_call c) w) = quota w.
Proof. destruct c; [apply login_quota | reflexivity]. Qed.

Lemma run_calls_loading (cs : list Call) (w : World) :
  loading (run_calls cs w) = loading w.
Proof.
  revert w. induction cs as [|c cs IH]; intros w; simpl; [reflexivity|].
  unfold run_calls in *. simpl. rewrite IH. apply run_call_loading.
Qed.

Lemma run_calls_quota (cs : list Call) (w : World) :
  quota (run_calls cs w) = quota w.
Proof.
  revert w. induction cs as [|c cs IH]; intros w; simpl; [reflexivity|].
  unfold run_calls in *. simpl. rewrite IH. apply run_call_quota.
Qed.

Lemma run_calls_snoc_eq (w : World) (cs : list Call) (c : Call) :
  run_calls (cs ++ [c]) w = exec (run_call c) (run_calls cs w).
Proof. unfold run_calls. rewrite foldl_app. reflexivity. Qed.

(** The state right after a call that returned. *)
Lemma run_call_returned (c : Call) (w : World) :
  returns (run_call c) w = true ->
  isAuthenticated (exec (run_call c) w) = is_login c /\
  storage_after c (localStorage (exec (run_call c) w)).
Proof.
  destruct c as [tokens|]; simpl; intros Hret.
  - rewrite (exec_login _ _ Hret) at 1. simpl. split; [reflexivity|].
    apply login_storage, Hret.
  - split; [reflexivity | apply logout_storage].
Qed.

(** Only a [login] can throw, and then the flag is what it was. *)
Lemma run_call_thrown (c : Call) (w : World) :
  returns (run_call c) w = false ->
  is_login c = true /\
  isAuthenticated (exec (run_call c) w) = isAuthenticated w.
Proof.
  destruct c as [tokens|]; simpl; intros Hret.
  - split; [reflexivity | apply login_thrown, Hret].
  - discriminate Hret.
Qed.

(** C2 as stated fails: in a browser that refuses the write, a [login]
    called from the resolved, unauthenticated state throws and leaves the
    flag [false], although the last call of the sequence is a [login]. *)
Lemma login_refused_not_authenticated :
  let w := exec initialize (mount (fun _ _ _ => false) ∅) in
  let c := Login (mkTokens "a1" "r1") in
  loading w = false /\
  is_login c = true /\
  isAuthenticated (run_calls [c] w) = false.
Proof. repeat split. Qed.

(** C2, amended.  For every sequence of [login]/[logout] calls run from any
    state and every call [c] of it: if the browser accepts the storage
    writes of [c] - a [logout] writes nothing and is always accepted - then
    right after [c] the authentication flag says whether [c] was a
    [login], and storage mirrors it: both entries hold the pair of that
    [login], or both are absent after a [logout].  So when the last call is
    accepted the final flag is that of the last call, whatever happened to
    the calls before it.  A call that is refused is a [login]; it throws and
    leaves the flag as it was.  No call changes [loading]. *)
Theorem login_logout_last_call_wins (w : World) (cs : list Call) :
  (forall (cs' : list Call) (c : Call), cs = (cs' ++ [c])%list ->
     returns (run_call c) (run_calls cs' w) = true ->
     isAuthenticated (run_calls cs w) = is_login c) /\
  (forall n c, cs !! n = Some c ->
     let before := run_calls (take n cs) w in
     let after := run_calls (take (S n) cs) w in
     (returns (run_call c) before = true ->
      isAuthenticated after = is_login c /\
      storage_after c (localStorage after)) /\
     (returns (run_call c) before = false ->
      is_login c = true /\
      isAuthenticated after = isAuthenticated before) /\
     loading after = loading w).
Proof.
  split.
  - intros cs' c -> Hret. rewrite run_calls_snoc_eq.
    apply run_call_returned, Hret.
  - intros n c Hn. simpl. rewrite (take_S_r _ _ _ Hn), run_calls_snoc_eq.
    split; [|split].
    + apply run_call_returned.
    + apply run_call_thrown.
    + rewrite run_call_loading. apply run_calls_loading.
Qed.

Lemma login_logout_last_call_wins_witness :
  let q : Quota := fun _ value _ => negb (String.eqb value "too long") in
  let w := exec initialize (mount q ∅) in
  let cs := [Login (mkTokens "a1" "r1"); Logout; Login (mkTokens "a2" "too long")] in
  isAuthenticated (run_calls (take 2 cs) w) = false /\
  (isAuthenticated (run_calls (take 1 cs) w) = true /\
   storage_after (Login (mkTokens "a1" "r1")) (localStorage (run_calls (take 1 cs) w))) /\
  (is_login (Login (mkTokens "a2" "too long")) = true /\
   isAuthenticated (run_calls (take 3 cs) w) =
   isAuthenticated (run_calls (take 2 cs) w)).
Proof.
  intros q w cs.
  pose proof (login_logout_last_call_wins w (take 2 cs)) as [Hlast _].
  pose proof (login_logout_last_call_wins w cs) as [_ Heach].
  split; [|split].
  - apply (Hlast [Login (mkTokens "a1" "r1")] Logout); reflexivity.
  - apply (Heach 0 (Login (mkTokens "a1" "r1"))); reflexivity.
  - apply (Heach 2 (Login (mkTokens "a2" "too long"))); reflexivity.
Defined.

(** C3 as stated fails: an access-token entry that is present but holds the
    empty string is falsy, and [initialize] leaves the flag [false]. *)
Lemma initialize_empty_token_not_authenticated :
  let ls : Storage := {["accessToken" := ""]} in
  is_Some (getItem "accessToken" ls) /\
  isAuthenticated (exec initialize (mount unlimited ls)) = false /\
  loading (exec initialize (mount unlimited ls)) = false.
Proof.
  intros ls. split; [|split].
  - exists "". reflexivity.
  - reflexivity.
  - reflexivity.
Qed.

(** C3, amended.  From the mounted state, whose [loading] is [true],
    [initialize] reads the access-token entry.  If the entry is present and
    not the empty string the state becomes authenticated; if it is absent,
    or present but empty, the state is unauthenticated.  In every case
    [loading] ends [false] and storage is what it was. *)
Theorem initialize_resolves (q : Quota) (ls : Storage) :
  let w := exec initialize (mount q ls) in
  loading (mount q ls) = true /\
  loading w = false /\
  localStorage w = ls /\
  match getItem "accessToken" ls with
  | Some token =>
      if decide (token = "") then isAuthenticated w = false
      else isAuthenticated w = true
  | None => isAuthenticated w = false
  end.
Proof.
  intros w. subst w. rewrite exec_initialize. simpl.
  repeat split. unfold getItem.
  destruct (ls !! "accessToken") as [token|]; simpl; [|reflexivity].
  destruct (decide (token = "")) as [->|Hne]; [reflexivity|].
  apply String.eqb_neq in Hne. rewrite Hne. reflexivity.
Qed.

(** C6.  Running [initialize] a second time changes nothing: flag,
    [loading] and storage are those of the first run, from any state. *)
Theorem initialize_idempotent (w : World) :
  exec initialize (exec initialize w) = exec initialize w.
Proof.
  rewrite !exec_initialize. simpl.
  destruct (truthy (localStorage w !! "accessToken")); reflexivity.
Qed.

(** C4 as stated fails: right after mounting, before [initialize] has run,
    the state is not authenticated, yet [getAccessToken] already answers
    with the stored token instead of [null]. *)
Lemma getAccessToken_before_initialize :
  let w := mount unlimited {["accessToken" := "abc"]} in
  isAuthenticated w = false /\
  result getAccessToken w = Returned (Some "abc").
Proof. intros w. split; reflexivity. Qed.

(** C4, amended.  [getAccessToken] answers with the access-token entry that
    storage holds at the moment of the call ([null] when there is none),
    whatever the in-memory flag says, and changes neither state nor
    storage.  Hence in every state whose flag mirrors storage (authenticated
    exactly when the entry is present) it answers with the token when
    authenticated and with [null] otherwise.  After [initialize] over a
    storage whose entry is ["abc"] it answers ["abc"] and the state is
    authenticated. *)
Theorem getAccessToken_reads_storage (w : World) :
  exec getAccessToken w = w /\
  result getAccessToken w = Returned (getItem "accessToken" (localStorage w)) /\
  ((isAuthenticated w = true <-> is_Some (getItem "accessToken" (localStorage w))) ->
   if isAuthenticated w
   then exists token, getItem "accessToken" (localStorage w) = Some token /\
                      result getAccessToken w = Returned (Some token)
   else result getAccessToken w = Returned None) /\
  (forall (q : Quota) (ls : Storage),
     getItem "accessToken" ls = Some "abc" ->
     result getAccessToken (exec initialize (mount q ls)) = Returned (Some "abc") /\
     isAuthenticated (exec initialize (mount q ls)) = true).
Proof.
  split; [reflexivity|]. split; [reflexivity|]. split.
  - intros [Hto Hfrom]. unfold result, getAccessToken, localStorage_getItem. simpl.
    destruct (isAuthenticated w) eqn:Ha.
    + destruct (Hto eq_refl) as [token Htoken]. exists token.
      rewrite Htoken. split; reflexivity.
    + destruct (getItem "accessToken" (localStorage w)) as [token|] eqn:Ht;
        [|reflexivity].
      assert (false = true) by (apply Hfrom; eexists; reflexivity).
      discriminate.
  - intros q ls Hls. rewrite exec_initialize. simpl.
    unfold result, getAccessToken, localStorage_getItem. simpl.
    unfold getItem in *. rewrite Hls. split; reflexivity.
Qed.

Lemma getAccessToken_reads_storage_witness :
  let w := exec (login (mkTokens "abc" "xyz")) (exec initialize (mount unlimited ∅)) in
  exists token, getItem "accessToken" (localStorage w) = Some token /\
                result getAccessToken w = Returned (Some token).
Proof.
  intros w.
  apply (proj1 (proj2 (proj2 (getAccessToken_reads_storage w)))).
  split; intros _; [exists "abc"|]; reflexivity.
Defined.

(** C5 as stated fails: a storage that holds a refresh entry but no access
    entry resolves to the unauthenticated state, and [logout] called there
    removes the refresh entry, so storage is not what it was. *)
Lemma logout_unauthenticated_changes_storage :
  let w := exec initialize (mount unlimited {["refreshToken" := "xyz"]}) in
  isAuthenticated w = false /\ loading w = false /\
  getItem "refreshToken" (localStorage w) = Some "xyz" /\
  getItem "refreshToken" (localStorage (exec logout w)) = None /\
  exec logout w <> w.
Proof.
  intros w. repeat split.
  intros H. apply (f_equal (fun w => getItem "refreshToken" (localStorage w))) in H.
  vm_compute in H. discriminate H.
Qed.

(** C5, amended.  [logout] has no precondition: from every state it leaves
    storage without either token entry, every other entry and [loading] as
    they were, and the state unauthenticated.  A second [logout] changes
    nothing, and more generally [logout] is a no-op whenever the state is
    unauthenticated and storage already holds neither token entry.  After
    a [login] with the pair a1, r1 whose writes the browser accepts, storage
    holds both entries and the state is authenticated; after the [logout]
    that follows the [login], accepted or not, storage holds neither and the
    state is unauthenticated. *)
Theorem logout_effect (w : World) :
  let w' := exec logout w in
  (getItem "accessToken" (localStorage w') = None /\
   getItem "refreshToken" (localStorage w') = None /\
   isAuthenticated w' = false /\
   loading w' = loading w) /\
  (forall key, key <> "accessToken" -> key <> "refreshToken" ->
     getItem key (localStorage w') = getItem key (localStorage w)) /\
  exec logout w' = w' /\
  (isAuthenticated w = false ->
   getItem "accessToken" (localStorage w) = None ->
   getItem "refreshToken" (localStorage w) = None ->
   w' = w) /\
  (let w1 := exec (login (mkTokens "a1" "r1")) w in
   let w2 := exec logout w1 in
   (returns (login (mkTokens "a1" "r1")) w = true ->
    getItem "accessToken" (localStorage w1) = Some "a1" /\
    getItem "refreshToken" (localStorage w1) = Some "r1" /\
    isAuthenticated w1 = true) /\
   (getItem "accessToken" (localStorage w2) = None /\
    getItem "refreshToken" (localStorage w2) = None /\
    isAuthenticated w2 = false)).
Proof.
  intros w'. subst w'. unfold getItem.
  pose proof (logout_storage w) as [Ha Hr].
  split; [|split; [|split; [|split]]].
  - repeat split; assumption.
  - intros key Hka Hkr. rewrite exec_logout. simpl.
    rewrite !lookup_delete_ne by congruence. reflexivity.
  - rewrite (exec_logout (exec logout w)).
    rewrite (delete_id _ "accessToken") by exact Ha.
    rewrite (delete_id _ "refreshToken") by exact Hr.
    reflexivity.
  - intros Hflag Hna Hnr. rewrite exec_logout.
    destruct w as [a l ls q]. simpl in *. subst a. f_equal.
    rewrite (delete_id ls "accessToken") by exact Hna.
    apply delete_id. exact Hnr.
  - simpl.
    pose proof (logout_storage (exec (login (mkTokens "a1" "r1")) w)) as [Ha2 Hr2].
    split; [|repeat split; assumption].
    intros Hret.
    pose proof (login_storage (mkTokens "a1" "r1") w Hret) as [Ha1 Hr1].
    rewrite (exec_login _ _ Hret) at 3. repeat split; assumption.
Qed.

Lemma logout_effect_witness :
  let w := exec initialize (mount unlimited {["theme" := "dark"]}) in
  let w1 := exec (login (mkTokens "a1" "r1")) w in
  getItem "theme" (localStorage (exec logout w)) = getItem "theme" (localStorage w) /\
  exec logout w = w /\
  (getItem "accessToken" (localStorage w1) = Some "a1" /\
   getItem "refreshToken" (localStorage w1) = Some "r1" /\
   isAuthenticated w1 = true).
Proof.
  intros w w1.
  pose proof (logout_effect w) as (_ & Hother & _ & Hnoop & Hlogin & _).
  split; [|split].
  - apply Hother; discriminate.
  - apply Hnoop; reflexivity.
  - apply Hlogin. reflexivity.
Defined.

(** The start-up scenarios of the specification, run end to end. *)

Example startup_empty_storage :
  let w := exec initialize (mount unlimited ∅) in
  (loading w, isAuthenticated w) = (false, false) /\
  result (ProtectedRoute (Some (AuthProvider w)) "Dashboard Page") w =
  Returned (Navigate "/login" true).
Proof. split; reflexivity. Qed.

Example startup_stored_tokens :
  let w := exec initialize
             (mount unlimited (<["refreshToken" := "xyz"]> {["accessToken" := "abc"]})) in
  (loading w, isAuthenticated w) = (false, true) /\
  result getAccessToken w = Returned (Some "abc") /\
  result (ProtectedRoute (Some (AuthProvider w)) "Dashboard Page") w =
  Returned (Fragment "Dashboard Page").
Proof. repeat split; reflexivity. Qed.

Example before_initialize_placeholder :
  let w := mount unlimited (<["refreshToken" := "xyz"]> {["accessToken" := "abc"]}) in
  result (ProtectedRoute (Some (AuthProvider w)) "Dashboard Page") w =
  Returned (Div "Loading...").
Proof. reflexivity. Qed.

(** ** The dashboard's list of houses *)

Section DeleteHouse.
Import DashboardPage.
Implicit Types (hs : list HouseForm) (s : State).

Lemma strict_ne_true (a b : Z) : strict_ne a b = true <-> a <> b.
Proof. unfold strict_ne. rewrite negb_true_iff. apply Z.eqb_neq. Qed.

Lemma strict_ne_false (a b : Z) : strict_ne a b = false <-> a = b.
Proof. unfold strict_ne. rewrite negb_false_iff. apply Z.eqb_eq. Qed.

(** The entries [filter] keeps all differ from the deleted id. *)
Lemma kept_ids_differ (id0 : Z) hs :
  Forall (fun house => id house <> id0)
         (List.filter (fun house => strict_ne (id house) id0) hs).
Proof.
  induction hs as [|h hs IH]; simpl; [constructor|].
  destruct (strict_ne (id h) id0) eqn:E; [|exact IH].
  constructor; [apply strict_ne_true, E | exact IH].
Qed.

(** The kept entries appear in the order they had. *)
Lemma kept_in_order (id0 : Z) hs :
  sublist (List.filter (fun house => strict_ne (id house) id0) hs) hs.
Proof.
  induction hs as [|h hs IH]; simpl; [constructor|].
  destruct (strict_ne (id h) id0).
  - apply sublist_skip, IH.
  - apply sublist_cons, IH.
Qed.

(** The old list is the kept entries together with the entries of the
    deleted id: nothing else is lost and nothing is added. *)
Lemma kept_and_removed (id0 : Z) hs :
  hs ≡ₚ List.filter (fun house => strict_ne (id house) id0) hs ++
        List.filter (fun house => (id house =? id0)%Z) hs.
Proof.
  induction hs as [|h hs IH]; simpl; [reflexivity|].
  unfold strict_ne at 1. destruct (id h =? id0)%Z; simpl.
  - rewrite <- Permutation_middle. constructor. exact IH.
  - constructor. exact IH.
Qed.

Example delete_second_of_three :
  let h1 := mkHouse "Villa" 10 12 3 1 1 in
  let h2 := mkHouse "Cabin" 4 5 3 1 2 in
  let h3 := mkHouse "Tower" 8 8 30 10 3 in
  let s := mkState [h1; h2; h3] false None (mkHouse "" 0 0 0 1 0) None None false in
  houses (handleDeleteHouse s 2 true Resolved s) = [h1; h3] /\
  houses (handleDeleteHouse s 2 true Rejected s) = [h1; h2; h3] /\
  houses (handleDeleteHouse s 7 true Resolved s) = [h1; h2; h3] /\
  handleDeleteHouse s 2 false Resolved s = s.
Proof. repeat split; reflexivity. Qed.

(** Two deletions requested from the same render: each settlement filters
    the list of that render, so the second one starts again from it. *)
Example deletes_from_one_render :
  let h1 := mkHouse "Villa" 10 12 3 1 1 in
  let h2 := mkHouse "Cabin" 4 5 3 1 2 in
  let h3 := mkHouse "Tower" 8 8 30 10 3 in
  let s := mkState [h1; h2; h3] false None (mkHouse "" 0 0 0 1 0) None None false in
  let s2 := handleDeleteHouse s 2 true Resolved s in
  houses s2 = [h1; h3] /\
  houses (handleDeleteHouse s 1 true Resolved s2) = [h2; h3] /\
  houses (handleDeleteHouse s2 1 true Resolved s2) = [h3].
Proof. repeat split; reflexivity. Qed.

(** What one run of the handler does to the list.  On success the new list
    is computed from the list of the handler's own render: it holds no
    entry of the deleted id, keeps the other entries of that list as they
    are and in order, and drops exactly its entries of the deleted id.  On
    failure, and when the user declines, the list is left as it is. *)
Lemma handleDeleteHouse_from_render (id0 : Z) (rendered : State) s :
  let deleted := handleDeleteHouse rendered id0 true Resolved s in
  let failed := handleDeleteHouse rendered id0 true Rejected s in
  (Forall (fun house => id house <> id0) (houses deleted) /\
   sublist (houses deleted) (houses rendered) /\
   houses rendered ≡ₚ
     houses deleted ++
     List.filter (fun house => (id house =? id0)%Z) (houses rendered)) /\
  houses failed = houses s /\
  (forall response, handleDeleteHouse rendered id0 false response s = s).
Proof.
  simpl. split; [|split].
  - split; [apply kept_ids_differ|]. split; [apply kept_in_order|].
    apply kept_and_removed.
  - reflexivity.
  - intros response. reflexivity.
Qed.

(** C10.  The claim - after a successful delete the list is the list held
    before, without the entries of the deleted id and with every other
    entry unchanged - is what the handler is written for (its comment says
    "Remove house from state"), but [setHouses(houses.filter(...))] filters
    the list of the render the handler was created in, not the list held
    when the request settles.  With Villa, Cabin and Tower listed, the
    Delete buttons of Cabin and of Villa are pressed and confirmed in the
    same render, and the two requests succeed one after the other.  After
    the first the list is Villa, Tower.  After the second it is Cabin,
    Tower: the list held before, without Villa, would be Tower alone, and
    Cabin, deleted a moment ago, is listed again. *)
Theorem handleDeleteHouse_stale_list :
  let villa := mkHouse "Villa" 10 12 3 1 1 in
  let cabin := mkHouse "Cabin" 4 5 3 1 2 in
  let tower := mkHouse "Tower" 8 8 30 10 3 in
  let rendered :=
    mkState [villa; cabin; tower] false None (mkHouse "" 0 0 0 1 0) None None false in
  let first := handleDeleteHouse rendered 2 true Resolved rendered in
  let second := handleDeleteHouse rendered 1 true Resolved first in
  houses first = [villa; tower] /\
  houses second = [cabin; tower] /\
  List.filter (fun house => strict_ne (id house) 1) (houses first) = [tower] /\
  houses second <>
    List.filter (fun house => strict_ne (id house) 1) (houses first).
Proof.
  simpl. repeat split. discriminate.
Qed.

End DeleteHouse.

(** * Further properties of the code *)

(** ** The session store across calls and reloads *)

Lemma run_call_other_key (c : Call) (w : World) (key : string) :
  key <> "accessToken" -> key <> "refreshToken" ->
  getItem key (localStorage (exec (run_call c) w)) = getItem key (localStorage w).
Proof.
  intros Ha Hr. unfold getItem. destruct c as [t|]; unfold run_call.
  - unfold exec. rewrite login_eq.
    destruct (quota w "accessToken" _ _); [|reflexivity].
    destruct (quota w "refreshToken" _ _); simpl;
      rewrite !lookup_insert_ne by congruence; reflexivity.
  - rewrite exec_logout. simpl. rewrite !lookup_delete_ne by congruence. reflexivity.
Qed.

Lemma run_calls_other_key (cs : list Call) (w : World) (key : string) :
  key <> "accessToken" -> key <> "refreshToken" ->
  localStorage (run_calls cs w) !! key = localStorage w !! key.
Proof.
  intros Ha Hr. revert w. induction cs as [|c cs IH]; intros w.
  - reflexivity.
  - unfold run_calls in *. simpl. rewrite IH.
    apply run_call_other_key; assumption.
Qed.

(** A call that returns decides the token entries by itself: run on two
    worlds that agree on everything else, it leaves the same world. *)
Lemma run_call_overwrites (c : Call) (w1 w2 : World) :
  returns (run_call c) w1 = true ->
  returns (run_call c) w2 = true ->
  loading w1 = loading w2 ->
  quota w1 = quota w2 ->
  (forall key, key <> "accessToken" -> key <> "refreshToken" ->
     localStorage w1 !! key = localStorage w2 !! key) ->
  exec (run_call c) w1 = exec (run_call c) w2.
Proof.
  intros H1 H2 Hl Hq Hls. destruct c as [t|]; simpl in *.
  - rewrite (exec_login _ _ H1), (exec_login _ _ H2), Hl, Hq. f_equal.
    apply map_eq. intros key. rewrite !lookup_insert.
    repeat case_decide; try reflexivity. apply Hls; congruence.
  - rewrite !exec_logout, Hl, Hq. f_equal.
    apply map_eq. intros key. rewrite !lookup_delete.
    repeat case_decide; try reflexivity. apply Hls; congruence.
Qed.

(** X1.  When the last call of a sequence of [login]/[logout] calls is
    accepted, where it runs and also from the starting state, the whole
    state after the sequence - flag, [loading] and every storage entry - is
    the state that call alone would have produced from the start: earlier
    calls, accepted or refused, leave no trace. *)
Theorem run_calls_only_last_matters (w : World) (cs : list Call) (c : Call) :
  returns (run_call c) (run_calls cs w) = true ->
  returns (run_call c) w = true ->
  run_calls (cs ++ [c]) w = exec (run_call c) w.
Proof.
  intros Hthere Hstart. rewrite run_calls_snoc_eq.
  apply run_call_overwrites; try assumption.
  - apply run_calls_loading.
  - apply run_calls_quota.
  - intros key Ha Hr. apply run_calls_other_key; assumption.
Qed.

Lemma run_calls_only_last_matters_witness :
  let q : Quota := fun _ value _ => negb (String.eqb value "too long") in
  let w := exec initialize (mount q {["theme" := "dark"]}) in
  run_calls [Login (mkTokens "a1" "too long"); Logout; Login (mkTokens "a2" "r2")] w =
  exec (login (mkTokens "a2" "r2")) w.
Proof.
  intros q w.
  apply (run_calls_only_last_matters w
           [Login (mkTokens "a1" "too long"); Logout] (Login (mkTokens "a2" "r2")));
    reflexivity.
Defined.

(** X2.  No sequence of [login]/[logout] calls reads, writes or removes a
    storage entry other than the two token entries. *)
Theorem run_calls_other_keys (cs : list Call) (w : World) (key : string) :
  key <> "accessToken" -> key <> "refreshToken" ->
  getItem key (localStorage (run_calls cs w)) = getItem key (localStorage w).
Proof.
  intros Ha Hr. revert w. induction cs as [|c cs IH]; intros w.
  - reflexivity.
  - unfold run_calls in *. simpl. rewrite IH.
    apply run_call_other_key; assumption.
Qed.

Lemma run_calls_other_keys_witness :
  let w := mount unlimited {["theme" := "dark"]} in
  getItem "theme"
    (localStorage (run_calls [Login (mkTokens "a1" "r1"); Logout] w)) =
  getItem "theme" (localStorage w).
Proof.
  intros w. apply run_calls_other_keys; discriminate.
Defined.

Lemma initialize_returns (c : Call) (w : World) :
  returns (run_call c) (exec initialize w) = returns (run_call c) w.
Proof.
  destruct c as [t|]; simpl; [|reflexivity].
  rewrite !login_returns, exec_initialize. reflexivity.
Qed.

Lemma initialize_commutes_call (c : Call) (w : World) :
  returns (run_call c) w = true ->
  exec initialize (exec (run_call c) w) = exec (run_call c) (exec initialize w).
Proof.
  intros Hret. pose proof Hret as Hret'. rewrite <- initialize_returns in Hret'.
  destruct c as [t|]; simpl in *.
  - rewrite (exec_login _ _ Hret), (exec_login _ _ Hret'), !exec_initialize. simpl.
    destruct (truthy _); reflexivity.
  - rewrite !exec_logout, !exec_initialize. simpl.
    rewrite lookup_delete_ne by (symmetry; apply token_keys_differ).
    rewrite lookup_delete_eq. reflexivity.
Qed.

(** X3.  The mount effect commutes with accepted [login] and [logout]
    calls: for a sequence of calls every one of which returns, running
    [initialize] before or after the sequence gives the same flag,
    [loading] and storage. *)
Theorem initialize_commutes_calls (cs : list Call) (w : World) :
  all_return cs w = true ->
  exec initialize (run_calls cs w) = run_calls cs (exec initialize w).
Proof.
  revert w. induction cs as [|c cs IH]; intros w Hall.
  - reflexivity.
  - simpl in Hall. apply andb_true_iff in Hall as [Hc Hcs].
    unfold run_calls in *. simpl. rewrite (IH _ Hcs).
    rewrite (initialize_commutes_call _ _ Hc). reflexivity.
Qed.

Lemma initialize_commutes_calls_witness :
  let w := mount unlimited {["accessToken" := "old"]} in
  let cs := [Logout; Login (mkTokens "a1" "r1")] in
  exec initialize (run_calls cs w) = run_calls cs (exec initialize w).
Proof.
  intros w cs. apply (initialize_commutes_calls cs w). reflexivity.
Defined.

Section GuardAfterCalls.
Context {ReactNode : Type}.
Implicit Types (children : ReactNode).

(** X4.  What the guard shows after a sequence of calls.  When the last
    call is accepted: the placeholder as long as the mount effect has not
    run, whatever was called; once resolved, the protected view if the last
    call was a [login] and the redirect to the login entry point if it was
    a [logout].  When the last call is refused - a [login] that throws -
    the guard shows what it showed before that call. *)
Theorem guard_after_calls (w : World) (cs : list Call) (c : Call) children :
  let before := run_calls cs w in
  let after := run_calls (cs ++ [c]) w in
  (returns (run_call c) before = true ->
   result (ProtectedRoute (Some (AuthProvider after)) children) after =
   Returned (if loading w then Div "Loading..."
             else if is_login c then Fragment children
             else Navigate "/login" true)) /\
  (returns (run_call c) before = false ->
   result (ProtectedRoute (Some (AuthProvider after)) children) after =
   result (ProtectedRoute (Some (AuthProvider before)) children) before).
Proof.
  simpl. rewrite run_calls_snoc_eq. unfold result.
  rewrite !ProtectedRoute_eq. simpl.
  rewrite run_call_loading, run_calls_loading. split; intros Hret.
  - apply run_call_returned in Hret as [Hflag _]. rewrite Hflag.
    destruct (loading w), (is_login c); reflexivity.
  - apply run_call_thrown in Hret as [_ Hflag]. rewrite Hflag. reflexivity.
Qed.

(** X5.  Reloading the page after an accepted [login] - a fresh mount over
    the storage the [login] left, then the mount effect - recovers the
    session exactly when the access token is not the empty string: the
    state is resolved, [getAccessToken] answers with the token logged in
    with, the refresh entry is still there, and the guard shows the
    protected view, or the redirect for an empty access token. *)
Theorem reload_after_login (tokens : Tokens) (w : World) (q : Quota) children :
  returns (login tokens) w = true ->
  let w' := exec initialize (mount q (localStorage (exec (login tokens) w))) in
  loading w' = false /\
  isAuthenticated w' = negb (String.eqb (access tokens) "") /\
  result getAccessToken w' = Returned (Some (access tokens)) /\
  getItem "refreshToken" (localStorage w') = Some (refresh tokens) /\
  result (ProtectedRoute (Some (AuthProvider w')) children) w' =
  Returned (if String.eqb (access tokens) "" then Navigate "/login" true
            else Fragment children).
Proof.
  intros Hret w'. subst w'.
  pose proof (login_storage tokens w Hret) as [Ha Hr].
  generalize dependent (localStorage (exec (login tokens) w)). intros ls Ha Hr.
  rewrite exec_initialize. simpl. rewrite Ha. simpl.
  unfold result, getAccessToken, localStorage_getItem, getItem. simpl.
  rewrite Ha, Hr. repeat split.
  - destruct (String.eqb (access tokens) ""); reflexivity.
  - rewrite ProtectedRoute_eq. simpl.
    destruct (String.eqb (access tokens) ""); reflexivity.
Qed.

(** X6.  Reloading the page after a [logout] never recovers a session,
    whatever storage held before: the state resolves to unauthenticated,
    [getAccessToken] answers [null] and the guard redirects. *)
Theorem reload_after_logout (w : World) (q : Quota) children :
  let w' := exec initialize (mount q (localStorage (exec logout w))) in
  loading w' = false /\
  isAuthenticated w' = false /\
  result getAccessToken w' = Returned None /\
  result (ProtectedRoute (Some (AuthProvider w')) children) w' =
  Returned (Navigate "/login" true).
Proof.
  intros w'. subst w'.
  pose proof (logout_storage w) as [Ha _].
  generalize dependent (localStorage (exec logout w)). intros ls Ha.
  rewrite exec_initialize. simpl. rewrite Ha. simpl.
  unfold result, getAccessToken, localStorage_getItem, getItem. simpl.
  rewrite Ha. repeat split.
Qed.

End GuardAfterCalls.

Lemma guard_after_calls_witness :
  let q : Quota := fun _ value _ => negb (String.eqb value "too long") in
  let w := exec initialize (mount q ∅) in
  let ok := [Login (mkTokens "a1" "r1")] in
  result (ProtectedRoute (Some (AuthProvider (run_calls ok w))) "Dashboard Page")
         (run_calls ok w) =
    Returned (Fragment "Dashboard Page") /\
  result (ProtectedRoute
            (Some (AuthProvider (run_calls [Login (mkTokens "a1" "too long")] w)))
            "Dashboard Page")
         (run_calls [Login (mkTokens "a1" "too long")] w) =
    Returned (Navigate "/login" true).
Proof.
  intros q w ok. split.
  - apply (proj1 (guard_after_calls w [] (Login (mkTokens "a1" "r1")) "Dashboard Page")).
    reflexivity.
  - apply (proj2 (guard_after_calls w [] (Login (mkTokens "a1" "too long"))
                    "Dashboard Page")).
    reflexivity.
Defined.

Lemma reload_after_login_witness :
  let w := exec initialize (mount unlimited ∅) in
  let w' := exec initialize
              (mount unlimited (localStorage (exec (login (mkTokens "a1" "r1")) w))) in
  loading w' = false /\
  isAuthenticated w' = true /\
  result getAccessToken w' = Returned (Some "a1") /\
  getItem "refreshToken" (localStorage w') = Some "r1" /\
  result (ProtectedRoute (Some (AuthProvider w')) "Dashboard Page") w' =
  Returned (Fragment "Dashboard Page").
Proof.
  intros w.
  apply (reload_after_login (mkTokens "a1" "r1") w unlimited "Dashboard Page").
  reflexivity.
Defined.

(** ** The login page *)

Lemma or_else_truthy (detail : option string) (fallback : string) :
  fallback <> "" -> truthy (Some (LoginPage.or_else detail fallback)) = true.
Proof.
  intros Hf. unfold LoginPage.or_else.
  destruct detail as [d|]; simpl.
  - destruct (String.eqb d "") eqn:E; simpl.
    + apply negb_true_iff, String.eqb_neq, Hf.
    + rewrite E. reflexivity.
  - apply negb_true_iff, String.eqb_neq, Hf.
Qed.

Lemma or_else_eq (detail : option string) (fallback : string) :
  LoginPage.or_else detail fallback =
  match detail with
  | Some d => if String.eqb d "" then fallback else d
  | None => fallback
  end.
Proof.
  unfold LoginPage.or_else. destruct detail as [d|]; [|reflexivity].
  simpl. destruct (String.eqb d ""); reflexivity.
Qed.

Section LoginSubmit.
Import LoginPage.
Context {ReactNode : Type}.
Implicit Types (children : ReactNode) (s : State) (w : World).

(** X7.  A login request answered with status 200, submitted under the
    provider, runs the provider's [login] on the body.  When the browser
    accepts the two writes, both tokens of the body are stored, the state
    is authenticated, success is reported and the dashboard is asked for;
    the guard in front of the dashboard then shows the protected view, or
    the placeholder if the mount effect has not run yet, and never the
    redirect.  When the browser refuses a write, [login] throws into the
    handler's [catch]: the flag is what it was, no navigation is asked for,
    no success is reported and the error shown is the fallback message. *)
Theorem onSubmit_accepted (w0 w : World) (data : Tokens) s children :
  let '(s', target, w') := onSubmit (AuthProvider w0) (Resolved 200 data) s w in
  w' = exec (login data) w /\
  if returns (login data) w then
    target = Some "/dashboard" /\
    s' = {| isSubmitting := false; submitError := None; submitSuccess := true |} /\
    getItem "accessToken" (localStorage w') = Some (access data) /\
    getItem "refreshToken" (localStorage w') = Some (refresh data) /\
    isAuthenticated w' = true /\
    result (ProtectedRoute (Some (AuthProvider w')) children) w' =
    Returned (if loading w then Div "Loading..." else Fragment children)
  else
    target = None /\
    s' = {| isSubmitting := false; submitError := Some "An error occurred";
            submitSuccess := false |} /\
    isAuthenticated w' = isAuthenticated w.
Proof.
  unfold onSubmit. simpl.
  destruct (returns (login data) w) eqn:Hret.
  - pose proof (login_storage data w Hret) as [Ha Hr].
    pose proof (exec_login data w Hret) as Hexec.
    unfold returns, result in Hret. unfold exec in *.
    destruct (login data w) as [[[]|msg] w1]; [|discriminate Hret].
    simpl in *. split; [reflexivity|]. repeat split; try assumption.
    + rewrite Hexec. reflexivity.
    + unfold result. rewrite ProtectedRoute_eq. simpl. rewrite Hexec. simpl.
      destruct (loading w); reflexivity.
  - pose proof (login_thrown data w Hret) as (Hflag & _ & _).
    unfold returns, result in Hret. unfold exec in *.
    destruct (login data w) as [[[]|msg] w1]; [discriminate Hret|].
    simpl in *. repeat split. exact Hflag.
Qed.

(** X8.  Any other outcome of the login request - a rejection, or an
    answer whose status is not 200 - leaves the session and storage as they
    were, asks for no navigation and ends with the form enabled again and
    no success shown, whatever the context's [login] is.  After a rejection
    the error cell holds the server's [detail], or the fallback message
    when [detail] is missing or empty; either way it is not empty, so an
    error is always displayed.  After an answer with another status nothing
    is displayed. *)
Theorem onSubmit_refused (c : Ctx.AuthContextType) (response : Response) s w :
  (forall data, response <> Resolved 200 data) ->
  let '(s', target, w') := onSubmit c response s w in
  w' = w /\ target = None /\
  isSubmitting s' = false /\ submitSuccess s' = false /\
  match response with
  | Rejected detail =>
      submitError s' =
        Some match detail with
             | Some d => if String.eqb d "" then "An error occurred" else d
             | None => "An error occurred"
             end /\
      truthy (submitError s') = true
  | Resolved _ _ => submitError s' = None
  end.
Proof.
  intros Hne. destruct response as [status data|detail]; simpl.
  - destruct (status =? 200)%Z eqn:E.
    + apply Z.eqb_eq in E. subst status. destruct (Hne data). reflexivity.
    + repeat split.
  - repeat split.
    + rewrite or_else_eq. reflexivity.
    + apply or_else_truthy. discriminate.
Qed.

End LoginSubmit.

Lemma onSubmit_refused_witness :
  let w := exec initialize (mount unlimited ∅) in
  let '(s', target, w') :=
    LoginPage.onSubmit (AuthProvider w) (LoginPage.Rejected (Some ""))
      (LoginPage.mkState false None false) w in
  w' = w /\ target = None /\
  LoginPage.isSubmitting s' = false /\ LoginPage.submitSuccess s' = false /\
  LoginPage.submitError s' = Some "An error occurred" /\
  truthy (LoginPage.submitError s') = true.
Proof.
  intros w.
  apply (onSubmit_refused (AuthProvider w) (LoginPage.Rejected (Some ""))
           (LoginPage.mkState false None false) w).
  intros data. discriminate.
Defined.

(** ** The registration page *)

(** X9.  A rejected registration always shows an error and always takes it
    away again: the error cell holds the server's [detail], or the fallback
    message when [detail] is missing or empty, so it is never empty; the
    one timer scheduled is the one that clears it, and when that timer fires
    the error is gone while the success cell is what it was before the
    submission.  A rejection never schedules the move to the login page. *)
Theorem register_rejection_shown_then_cleared (detail : option string)
    (s : Register.State) :
  let '(s', timer) := Register.onSubmit (Register.Rejected detail) s in
  Register.submitError s' =
    Some match detail with
         | Some d => if String.eqb d "" then "Registration failed" else d
         | None => "Registration failed"
         end /\
  truthy (Register.submitError s') = true /\
  Register.submitSuccess s' = Register.submitSuccess s /\
  timer = Some Register.ClearSubmitError /\
  Register.fire Register.ClearSubmitError s' =
  {| Register.submitError := None;
     Register.submitSuccess := Register.submitSuccess s |}.
Proof.
  simpl. repeat split.
  - rewrite or_else_eq. reflexivity.
  - apply or_else_truthy. discriminate.
Qed.

(** ** The house details page *)

Section Details.
Import HouseDetailsPage.
Implicit Types (s : State) (events : list Event).

Lemma run_snoc events (e : Event) s :
  run (events ++ [e]) s = step (run events s) e.
Proof. unfold run. rewrite foldl_app. reflexivity. Qed.

(** X10.  After any run of fetches starting and settling on the page: the
    spinner follows the latest event alone - on when a fetch has just
    started, off when a fetch has just settled, even if another fetch
    started earlier is still under way; the house shown is the one of the
    latest successful fetch, or the earlier one if none succeeded - a
    failed fetch never removes it; and the error is set as soon as one
    fetch failed and is never cleared, neither by a new fetch starting nor
    by a later success. *)
Theorem fetches_outcome events s :
  let s' := run events s in
  loading s' = match last events with
               | None => loading s
               | Some Started => true
               | Some (Settled _) => false
               end /\
  house s' = (if last (omap data_of events) is Some data
              then Some data else house s) /\
  error s' = (if existsb is_rejected events
              then Some "Failed to load house details. Please try again."
              else error s).
Proof.
  induction events as [|e events IH] using rev_ind; simpl.
  - repeat split.
  - destruct IH as (_ & Hhouse & Herror).
    rewrite run_snoc, omap_app, existsb_app, last_snoc.
    destruct e as [|[data|]]; simpl.
    + rewrite app_nil_r, orb_false_r. repeat split; assumption.
    + rewrite last_snoc, orb_false_r. repeat split. exact Herror.
    + rewrite app_nil_r, orb_true_r. repeat split. exact Hhouse.
Qed.

End Details.

(** ** The dashboard: creating, editing and deleting houses *)

Section Dashboard.
Import DashboardPage.
Implicit Types (hs : list HouseForm) (h e : HouseForm) (s : State).

(** [houses.map(house => house.id === e.id ? e : house)] *)
#[local] Abbreviation replaced e hs :=
  (map (fun house => if Z.eqb (id house) (id e) then e else house) hs).
(** [houses.filter(house => house.id !== id0)] *)
#[local] Abbreviation without id0 hs :=
  (List.filter (fun house => strict_ne (id house) id0) hs).

Lemma houseSchema_true h :
  houseSchema h = true <->
  name h <> "" /\ (1 <= width h)%Z /\ (1 <= length h)%Z /\
  (1 <= height h)%Z /\ (1 <= floors h)%Z.
Proof.
  unfold houseSchema. rewrite !andb_true_iff, !Z.leb_le, Nat.leb_le.
  assert (Hn : (1 <= String.length (name h))%nat <-> name h <> "").
  { destruct (name h); simpl; split; intros H; try lia; try discriminate.
    destruct H. reflexivity. }
  rewrite Hn. tauto.
Qed.


Lemma replaced_absent e hs :
  Forall (fun house => id house <> id e) hs -> replaced e hs = hs.
Proof.
  induction 1 as [|h hs Hh _ IH]; simpl; [reflexivity|].
  apply Z.eqb_neq in Hh. rewrite Hh, IH. reflexivity.
Qed.

Lemma without_absent (id0 : Z) hs :
  Forall (fun house => id house <> id0) hs -> without id0 hs = hs.
Proof.
  induction 1 as [|h hs Hh _ IH]; simpl; [reflexivity|].
  apply strict_ne_true in Hh. rewrite Hh, IH. reflexivity.
Qed.

Lemma unique_ids_tail h hs :
  NoDup (map id (h :: hs)) -> Forall (fun house => id house <> id h) hs.
Proof.
  simpl. intros Hnd. apply NoDup_cons in Hnd as [Hnotin _].
  apply Forall_forall. intros house Hin Heq. apply Hnotin.
  rewrite <- Heq. apply list_elem_of_fmap. exists house. split; [reflexivity|exact Hin].
Qed.

Lemma unique_ids_other (i : nat) h h0 hs :
  NoDup (map id (h0 :: hs)) -> hs !! i = Some h -> id h0 <> id h.
Proof.
  intros Hnd Hi Heq. apply unique_ids_tail in Hnd.
  rewrite Forall_forall in Hnd. apply (Hnd h).
  - apply list_elem_of_lookup. exists i. exact Hi.
  - symmetry. exact Heq.
Qed.

Lemma replaced_in_place (i : nat) h e hs :
  hs !! i = Some h -> id e = id h -> NoDup (map id hs) ->
  replaced e hs = <[i := e]> hs.
Proof.
  revert i. induction hs as [|h0 hs IH]; intros i Hi He Hnd; [discriminate|].
  destruct i as [|i]; simpl in *.
  - injection Hi as ->.
    assert (E : (id h =? id e)%Z = true) by (apply Z.eqb_eq; congruence).
    rewrite E. f_equal. apply replaced_absent.
    pose proof (unique_ids_tail h hs Hnd) as Htail.
    eapply Forall_impl; [exact Htail|]. simpl. intros house Hh. congruence.
  - assert (Hne : id h0 <> id e).
    { rewrite He. apply (unique_ids_other i h h0 hs Hnd Hi). }
    apply Z.eqb_neq in Hne. rewrite Hne. f_equal.
    apply IH; [exact Hi | exact He |].
    apply NoDup_cons in Hnd as [_ Hnd]. exact Hnd.
Qed.

Lemma without_in_place (i : nat) h hs :
  hs !! i = Some h -> NoDup (map id hs) ->
  without (id h) hs = delete i hs.
Proof.
  revert i. induction hs as [|h0 hs IH]; intros i Hi Hnd; [discriminate|].
  destruct i as [|i]; simpl in *.
  - injection Hi as ->. unfold strict_ne at 1. rewrite Z.eqb_refl. simpl.
    apply without_absent, (unique_ids_tail h hs Hnd).
  - assert (Hne : id h0 <> id h) by apply (unique_ids_other i h h0 hs Hnd Hi).
    apply strict_ne_true in Hne. rewrite Hne. f_equal.
    apply IH; [exact Hi|].
    apply NoDup_cons in Hnd as [_ Hnd]. exact Hnd.
Qed.

Lemma without_replaced e hs :
  without (id e) (replaced e hs) = without (id e) hs.
Proof.
  induction hs as [|h hs IH]; simpl; [reflexivity|].
  assert (Hself : strict_ne (id e) (id e) = false) by (apply strict_ne_false; reflexivity).
  destruct (id h =? id e)%Z eqn:E.
  - assert (Hh : strict_ne (id h) (id e) = false)
      by (apply strict_ne_false, Z.eqb_eq, E).
    rewrite Hself, Hh. exact IH.
  - assert (Hh : strict_ne (id h) (id e) = true)
      by (apply strict_ne_true, Z.eqb_neq, E).
    rewrite Hh. f_equal. exact IH.
Qed.

Lemma without_comm (a b : Z) hs :
  without b (without a hs) = without a (without b hs).
Proof.
  induction hs as [|h hs IH]; simpl; [reflexivity|].
  destruct (strict_ne (id h) a) eqn:Ea, (strict_ne (id h) b) eqn:Eb; simpl;
    rewrite ?Ea, ?Eb; rewrite IH; reflexivity.
Qed.

Lemma without_again (a : Z) hs :
  without a (without a hs) = without a hs.
Proof.
  induction hs as [|h hs IH]; simpl; [reflexivity|].
  destruct (strict_ne (id h) a) eqn:Ea; simpl; rewrite ?Ea, IH; reflexivity.
Qed.

Lemma spread_id h (c : Change) : id (spread h c) = id h.
Proof. destruct c; reflexivity. Qed.

Lemma spreads_id (cs : list Change) h : id (foldl spread h cs) = id h.
Proof.
  revert h. induction cs as [|c cs IH]; intros h; simpl; [reflexivity|].
  rewrite IH. apply spread_id.
Qed.

Lemma edit_state h (cs : list Change) s :
  edit h cs s = setEditingHouse (Some (foldl spread h cs)) s.
Proof.
  unfold edit. revert h. induction cs as [|c cs IH] using rev_ind; intros h.
  - reflexivity.
  - rewrite !foldl_app. simpl. rewrite IH. reflexivity.
Qed.


(** X12.  Editing a listed house and saving it.  When ids are unique on the
    page, pressing Edit on the house at position [i], typing any changes
    that leave the form valid and saving successfully sends one PUT to that
    house's own id with the edited form as body, puts the edited form at
    position [i] and leaves every other position alone, and closes the
    editor.  No change typed into the form can alter the id. *)
Theorem edit_then_save (i : nat) h (cs : list Change) s :
  houses s !! i = Some h ->
  NoDup (map id (houses s)) ->
  houseSchema (foldl spread h cs) = true ->
  let edited := foldl spread h cs in
  let '(requests, s') := handleUpdateHouse (edit h cs s) Resolved (edit h cs s) in
  id edited = id h /\
  requests = [PUT_house (id h) edited] /\
  houses s' = <[i := edited]> (houses s) /\
  editingHouse s' = None.
Proof.
  intros Hi Hnd Hvalid. simpl.
  rewrite edit_state. unfold handleUpdateHouse. simpl. rewrite Hvalid. simpl.
  pose proof (spreads_id cs h) as Hid.
  split; [exact Hid|]. split; [rewrite Hid; reflexivity|].
  split; [|reflexivity].
  apply (replaced_in_place i h); assumption.
Qed.

(** X13.  A save that does not go through - the form fails validation, or
    the server rejects the request - leaves the list and the form being
    edited as they were and shows an error; when validation fails, no
    request is sent at all. *)
Theorem handleUpdateHouse_failure (rendered : State) (response : Settled) e s :
  editingHouse rendered = Some e ->
  houseSchema e = false \/ response = Rejected ->
  let '(requests, s') := handleUpdateHouse rendered response s in
  houses s' = houses s /\
  editingHouse s' = editingHouse s /\
  truthy (errorMessage s') = true /\
  (houseSchema e = false -> requests = []).
Proof.
  intros He Hfail. unfold handleUpdateHouse. rewrite He.
  destruct (houseSchema e) eqn:Hv.
  - destruct Hfail as [Hf | ->]; [discriminate|]. simpl.
    repeat split. discriminate.
  - simpl. repeat split.
Qed.

(** X14.  Neither [handleCreateHouse] nor [handleUpdateHouse] ever sends a
    house that fails the schema: every POST or PUT body has a non-empty
    name and width, length, height and floors of at least 1, a PUT goes to
    the id of its own body, and neither handler sends a DELETE. *)
Theorem requests_carry_valid_houses (rendered : State) (response : Settled) s
    (request : Request) :
  request ∈ (fst (handleCreateHouse rendered response s) ++
             fst (handleUpdateHouse rendered response s))%list ->
  match request with
  | GET_houses => True
  | POST_houses body =>
      name body <> "" /\ (1 <= width body)%Z /\ (1 <= length body)%Z /\
      (1 <= height body)%Z /\ (1 <= floors body)%Z
  | PUT_house id0 body =>
      id0 = id body /\
      name body <> "" /\ (1 <= width body)%Z /\ (1 <= length body)%Z /\
      (1 <= height body)%Z /\ (1 <= floors body)%Z
  | DELETE_house _ => False
  end.
Proof.
  unfold handleCreateHouse, handleUpdateHouse. intros Hin.
  apply elem_of_app in Hin as [Hin|Hin].
  - destruct (houseSchema (newHouse rendered)) eqn:Hv.
    + apply houseSchema_true in Hv.
      destruct response; simpl in Hin;
        repeat (apply elem_of_cons in Hin as [-> | Hin]; [try exact Hv; exact I|]);
        apply elem_of_nil in Hin; destruct Hin.
    + apply elem_of_nil in Hin. destruct Hin.
  - destruct (editingHouse rendered) as [e|]; [|apply elem_of_nil in Hin; destruct Hin].
    destruct (houseSchema e) eqn:Hv; [|apply elem_of_nil in Hin; destruct Hin].
    apply houseSchema_true in Hv.
    destruct response; simpl in Hin;
      (apply elem_of_cons in Hin as [-> | Hin];
       [split; [reflexivity | exact Hv] | apply elem_of_nil in Hin; destruct Hin]).
Qed.

(** X15.  After a successful creation the form is back to the blank one and
    the panel is closed, and pressing Create again sends nothing: the blank
    form fails validation.  After a rejected creation the form and the
    panel are kept, and pressing Create again sends the same house.  In
    every case the handler ends with [loading] off and never touches the
    list itself. *)
Theorem handleCreateHouse_again (response again : Settled) s :
  houseSchema (newHouse s) = true ->
  let '(requests, s') := handleCreateHouse s response s in
  loading s' = false /\ houses s' = houses s /\
  match response with
  | Resolved =>
      requests = [POST_houses (newHouse s); GET_houses] /\
      newHouse s' = blankHouse /\ isCreating s' = false /\
      fst (handleCreateHouse s' again s') = []
  | Rejected =>
      requests = [POST_houses (newHouse s)] /\
      newHouse s' = newHouse s /\ isCreating s' = isCreating s /\
      truthy (errorMessage s') = true /\
      POST_houses (newHouse s) ∈ fst (handleCreateHouse s' again s')
  end.
Proof.
  intros Hv. unfold handleCreateHouse at 1. rewrite Hv.
  destruct response; simpl.
  - repeat split.
  - repeat split. unfold handleCreateHouse. simpl. rewrite Hv.
    destruct again; apply elem_of_cons; left; reflexivity.
Qed.

(** X16.  Deleting after saving: once an edit of a house has been saved,
    deleting that house gives the list that deleting it without the edit
    would have given. *)
Theorem update_then_delete e s :
  editingHouse s = Some e ->
  houseSchema e = true ->
  let s1 := snd (handleUpdateHouse s Resolved s) in
  houses (handleDeleteHouse s1 (id e) true Resolved s1) =
  houses (handleDeleteHouse s (id e) true Resolved s).
Proof.
  intros He Hv. unfold handleUpdateHouse. rewrite He, Hv. simpl.
  apply without_replaced.
Qed.

(** X18.  When ids are unique in the list of the render whose Delete
    button was pressed, a confirmed, successful delete of the house at
    position [i] of that list sets the list to that render's list with
    exactly position [i] cut out, one entry shorter than it - whatever the
    list held when the request settled.  When nothing else changed the list
    in between, this is the list before with position [i] removed. *)
Theorem delete_listed_house (i : nat) h (rendered : State) s :
  houses rendered !! i = Some h ->
  NoDup (map id (houses rendered)) ->
  let s' := handleDeleteHouse rendered (id h) true Resolved s in
  houses s' = delete i (houses rendered) /\
  S (List.length (houses s')) = List.length (houses rendered).
Proof.
  intros Hi Hnd. simpl.
  rewrite (without_in_place i h (houses rendered) Hi Hnd). split; [reflexivity|].
  rewrite length_delete by (eexists; exact Hi).
  apply lookup_lt_Some in Hi.
  destruct (List.length (houses rendered)); simpl; lia.
Qed.

(** X19.  Deletions run one after the other commute and repeat harmlessly:
    deleting two ids in either order gives the same list, and deleting an
    id a second time changes nothing. *)
Theorem deletes_commute (a b : Z) s :
  let del id0 s := handleDeleteHouse s id0 true Resolved s in
  houses (del b (del a s)) = houses (del a (del b s)) /\
  houses (del a (del a s)) = houses (del a s).
Proof.
  simpl. split; [apply without_comm | apply without_again].
Qed.

(** A page with three houses, used to run the statements above. *)
#[local] Abbreviation villa := (mkHouse "Villa" 10 12 3 1 1).
#[local] Abbreviation cabin := (mkHouse "Cabin" 4 5 3 1 2).
#[local] Abbreviation tower := (mkHouse "Tower" 8 8 30 10 3).
#[local] Abbreviation three_houses :=
  (mkState [villa; cabin; tower] false None blankHouse None None false).

Lemma three_houses_unique : NoDup (map id (houses three_houses)).
Proof.
  simpl. repeat (apply NoDup_cons; split;
    [intros H; repeat (apply elem_of_cons in H as [H|H]; [discriminate H|]);
     apply elem_of_nil in H; exact H|]).
  apply NoDup_nil. exact I.
Defined.

Lemma edit_then_save_witness :
  let cs := [ChangeName "Lodge"; ChangeWidth 6] in
  let edited := foldl spread cabin cs in
  let '(requests, s') :=
    handleUpdateHouse (edit cabin cs three_houses) Resolved
                      (edit cabin cs three_houses) in
  id edited = 2%Z /\
  requests = [PUT_house 2 edited] /\
  houses s' = [villa; mkHouse "Lodge" 6 5 3 1 2; tower] /\
  editingHouse s' = None.
Proof.
  intros cs.
  apply (edit_then_save 1 cabin cs three_houses);
    [reflexivity | exact three_houses_unique | reflexivity].
Defined.

Lemma handleUpdateHouse_failure_witness :
  let unnamed := mkHouse "" 4 5 3 1 2 in
  let rendered := setEditingHouse (Some unnamed) three_houses in
  let '(requests, s') := handleUpdateHouse rendered Resolved rendered in
  houses s' = houses rendered /\
  editingHouse s' = Some unnamed /\
  truthy (errorMessage s') = true /\
  (houseSchema unnamed = false -> requests = []).
Proof.
  intros unnamed rendered.
  apply (handleUpdateHouse_failure rendered Resolved unnamed rendered);
    [reflexivity | left; reflexivity].
Defined.

Lemma requests_carry_valid_houses_witness :
  let rendered := setNewHouse cabin three_houses in
  name cabin <> "" /\ (1 <= width cabin)%Z /\ (1 <= length cabin)%Z /\
  (1 <= height cabin)%Z /\ (1 <= floors cabin)%Z.
Proof.
  intros rendered.
  apply (requests_carry_valid_houses rendered Resolved rendered (POST_houses cabin)).
  simpl. constructor.
Defined.

Lemma handleCreateHouse_again_witness :
  let s := setIsCreating true (setNewHouse cabin three_houses) in
  let '(requests, s') := handleCreateHouse s Resolved s in
  loading s' = false /\ houses s' = houses s /\
  requests = [POST_houses cabin; GET_houses] /\
  newHouse s' = blankHouse /\ isCreating s' = false /\
  fst (handleCreateHouse s' Resolved s') = [].
Proof.
  intros s. apply (handleCreateHouse_again Resolved Resolved s). reflexivity.
Defined.

Lemma update_then_delete_witness :
  let edited := mkHouse "Lodge" 6 5 3 1 2 in
  let s := setEditingHouse (Some edited) three_houses in
  let s1 := snd (handleUpdateHouse s Resolved s) in
  houses (handleDeleteHouse s1 2 true Resolved s1) =
  houses (handleDeleteHouse s 2 true Resolved s).
Proof.
  intros edited s.
  apply (update_then_delete edited s); reflexivity.
Defined.

Lemma delete_listed_house_witness :
  let s' := handleDeleteHouse three_houses 2 true Resolved three_houses in
  houses s' = [villa; tower] /\
  S (List.length (houses s')) = 3%nat.
Proof.
  apply (delete_listed_house 1 cabin three_houses three_houses);
    [reflexivity | exact three_houses_unique].
Defined.

End Dashboard.
